(** * aoc24/part2.py: the hailstone trajectory solver

    A shallow embedding of [src/aoc24/part2.py].  The script reads one
    hailstone per line ([px, py, pz @ vx, vy, vz]), converts every
    coordinate with [float], registers the unknowns [sx sy sz dx dy dz]
    and one time unknown [t<i>] per hailstone in a dictionary, builds one
    equation per hailstone and axis, prints them, hands them to
    [sympy.solve] and reports the sum of the first three entries of the
    first solution.

    [sympy.solve] is a library outside the repository: it is a variable
    of the development.  Python exceptions are modelled by the name of
    their class, standard output by the list of [print] calls. *)

From Stdlib Require Import ZArith QArith List String Ascii Bool Lia Lqa.
From Stdlib Require Import Floats.SpecFloat.
From Stdlib Require Import DecimalString DecimalNat DecimalFacts.
From Stdlib Require DecimalPos.
Import ListNotations.

Local Open Scope string_scope.
Local Open Scope list_scope.

(** ** Python numbers *)

(** The two numeric types the script could hold: [int] and [float]
    (IEEE 754 binary64, as [spec_float] with [prec = 53], [emax = 1024]). *)
Inductive pynum : Type :=
| PyInt (z : Z)
| PyFloat (f : spec_float).



Definition prec64 : Z := 53.
Definition emax64 : Z := 1024.

(** [float(n)] for an integer [n]: round to nearest, ties to even.  The
    flag is the sign of the literal, which only matters for [-0]. *)
Definition float_of_Z (neg : bool) (z : Z) : spec_float :=
  binary_normalize prec64 emax64 z 0 neg.

(** The exact value of a float; infinities and NaN have none and are
    sent to zero. *)
Definition Qpow2 (e : Z) : Q :=
  match e with
  | Z0 => 1
  | Zpos p => inject_Z (Z.pow_pos 2 p)
  | Zneg p => 1 # (Pos.pow 2 p)
  end.

Definition SF2Q (f : spec_float) : Q :=
  match f with
  | S754_finite sg m e => inject_Z (if sg then Zneg m else Zpos m) * Qpow2 e
  | _ => 0
  end.

Definition num_value (v : pynum) : Q :=
  match v with
  | PyInt z => inject_Z z
  | PyFloat f => SF2Q f
  end.

(** ** Exceptions and standard output *)

Inductive outcome (A : Type) : Type :=
| Returned (a : A)
| Raised (cls : string).
Arguments Returned {A} a.
Arguments Raised {A} cls.

Definition IndexError : string := "IndexError".
Definition KeyError : string := "KeyError".
Definition ValueError : string := "ValueError".

(** ** Strings: [str.split], [str.strip] and [float] on a token *)

Definition nl : string := String (ascii_of_nat 10) EmptyString.

(** The white space [float] ignores around a number, among the ASCII
    characters: space, tab to carriage return, and the four separators
    28 to 31. *)
Definition is_space (c : ascii) : bool :=
  let n := nat_of_ascii c in
  (Nat.eqb n 32 || (Nat.leb 9 n && Nat.leb n 13)
   || (Nat.leb 28 n && Nat.leb n 31))%bool.

Fixpoint lstrip (s : string) : string :=
  match s with
  | String c s' => if is_space c then lstrip s' else s
  | EmptyString => EmptyString
  end.

Fixpoint rstrip (s : string) : string :=
  match s with
  | EmptyString => EmptyString
  | String c s' =>
      match rstrip s' with
      | EmptyString => if is_space c then EmptyString else String c EmptyString
      | r => String c r
      end
  end.

Definition strip (s : string) : string := rstrip (lstrip s).

(** [s.split(sep)] for a non-empty separator: leftmost occurrences, not
    overlapping.  [skip] counts the characters of a separator still to be
    dropped, [cur] is the piece being read. *)
Fixpoint split_go (sep s : string) (skip : nat) (cur : string) : list string :=
  match s with
  | EmptyString => [cur]
  | String c s' =>
      match skip with
      | S k => split_go sep s' k cur
      | O =>
          if prefix sep s
          then cur :: split_go sep s' (String.length sep - 1) EmptyString
          else split_go sep s' 0 (cur ++ String c EmptyString)
      end
  end.

Definition split (s sep : string) : list string := split_go sep s 0 EmptyString.

Definition digit_of (c : ascii) : option Z :=
  let n := nat_of_ascii c in
  if (Nat.leb 48 n && Nat.leb n 57)%bool then Some (Z.of_nat (n - 48)) else None.

Fixpoint digits_go (s : string) (acc : Z) : option Z :=
  match s with
  | EmptyString => Some acc
  | String c s' =>
      match digit_of c with
      | Some dg => digits_go s' (10 * acc + dg)
      | None => None
      end
  end.

Definition digits (s : string) : option Z :=
  match s with
  | EmptyString => None
  | _ => digits_go s 0
  end.

(** [float(tok)] on the tokens of the input format: an optionally signed
    decimal integer, surrounding white space ignored.  Python's [float]
    also reads fractions, exponents, underscores, [inf] and [nan]; the
    input format has none of them and they are rejected here like any
    other malformed token. *)
Definition py_float (tok : string) : outcome pynum :=
  let body := strip tok in
  let '(neg, ds) :=
    match body with
    | String "-" r => (true, r)
    | String "+" r => (false, r)
    | _ => (false, body)
    end in
  match digits ds with
  | Some n => Returned (PyFloat (float_of_Z neg (if neg then - n else n)%Z))
  | None => Raised ValueError
  end.

(** ** Hailstones and symbolic expressions *)

(** [class H]: two lists, as long as the line had coordinates. *)
Record H : Type := mkH { H_s : list pynum; H_d : list pynum }.

(** [sympy.symbols(name)]: a symbol is its name. *)
Definition symbol : Type := string.
Definition sympy_symbols (name : string) : symbol := name.

(** The expressions the script builds with [+], [-] and [*]; sympy's
    automatic reordering of terms is not modelled, it keeps the value. *)
Inductive expr : Type :=
| Num (c : pynum)
| Sym (x : symbol)
| Add (a b : expr)
| Sub (a b : expr)
| Mul (a b : expr).

Fixpoint eval (env : symbol -> Q) (e : expr) : Q :=
  match e with
  | Num c => num_value c
  | Sym x => env x
  | Add a b => eval env a + eval env b
  | Sub a b => eval env a - eval env b
  | Mul a b => eval env a * eval env b
  end.


(** ** Dictionaries, in insertion order *)

(** A Python [dict] with string keys: assigning to a key that is present
    replaces its value where it stands, a new key goes last. *)
Definition dict (V : Type) : Type := list (string * V).

Fixpoint dict_set {V} (d : dict V) (k : string) (v : V) : dict V :=
  match d with
  | [] => [(k, v)]
  | (k', v') :: d' =>
      if String.eqb k' k then (k, v) :: d' else (k', v') :: dict_set d' k v
  end.

Fixpoint dict_find {V} (d : dict V) (k : string) : option V :=
  match d with
  | [] => None
  | (k', v') :: d' => if String.eqb k' k then Some v' else dict_find d' k
  end.

Definition dict_keys {V} (d : dict V) : list string := map fst d.
Definition dict_values {V} (d : dict V) : list V := map snd d.

(** ** What [print] receives *)

Inductive pyobj : Type :=
| OStr (s : string)
| OHail (h : H)
| OExpr (e : expr)
| ODict (d : dict symbol)
| OTuple (t : list Q)
| ONum (q : Q).

(** Standard output: one entry per call of [print], with its arguments. *)
Definition stdout : Type := list (list pyobj).

(** ** The monad of the script: exceptions and output *)

Definition Py (A : Type) : Type := stdout -> outcome A * stdout.

Definition ret {A} (a : A) : Py A := fun out => (Returned a, out).

Definition bind {A B} (m : Py A) (k : A -> Py B) : Py B :=
  fun out =>
    match m out with
    | (Returned a, out') => k a out'
    | (Raised cls, out') => (Raised cls, out')
    end.

Definition raise {A} (cls : string) : Py A := fun out => (Raised cls, out).

Definition print (args : list pyobj) : Py unit :=
  fun out => (Returned tt, out ++ [args]).

Definition lift {A} (o : outcome A) : Py A := fun out => (o, out).

Declare Scope py_scope.
Delimit Scope py_scope with py.
Notation "x <- m ;; k" := (bind m (fun x => k))
  (at level 61, m at next level, right associativity) : py_scope.
Notation "m ;;; k" := (bind m (fun _ => k))
  (at level 61, right associativity) : py_scope.
Local Open Scope py_scope.

(** [for x in l: st = body x st], threading the loop's variables. *)
Fixpoint for_each {A S} (l : list A) (body : A -> S -> Py S) (st : S) : Py S :=
  match l with
  | [] => ret st
  | x :: l' => st' <- body x st ;; for_each l' body st'
  end.

Definition enumerate {A} (l : list A) : list (nat * A) :=
  combine (seq 0 (List.length l)) l.

(** [l[i]] for [i >= 0]. *)
Definition getitem {A} (l : list A) (i : nat) : Py A :=
  match nth_error l i with
  | Some a => ret a
  | None => raise IndexError
  end.

(** [d[k]]. *)
Definition dict_get {V} (d : dict V) (k : string) : Py V :=
  match dict_find d k with
  | Some v => ret v
  | None => raise KeyError
  end.

(** [str(n)] for a natural number, as in [f"t{idx}"]. *)
Definition str_nat (n : nat) : string := NilEmpty.string_of_uint (Nat.to_uint n).

(** [f"t{idx}"] *)
Definition tname (idx : nat) : string := ("t" ++ str_nat idx)%string.

(** ** [class Symbols] *)

Record Symbols : Type := mkSymbols { Symbols_s : dict symbol; Symbols_h : list H }.

Definition target_names : list string := ["sx"; "sy"; "sz"; "dx"; "dy"; "dz"].

(** [Symbols.__init__] *)
Definition Symbols_init : Symbols :=
  mkSymbols
    (fold_left (fun d name => dict_set d name (sympy_symbols name)) target_names [])
    [].

(** [Symbols._add_for_h] *)
Definition Symbols_add_for_h (self : Symbols) (h : H) (idx : nat) : Symbols :=
  mkSymbols (dict_set (Symbols_s self) (tname idx) (sympy_symbols (tname idx)))
            (Symbols_h self).

(** [Symbols.add_all] *)
Definition Symbols_add_all (self : Symbols) (h : list H) : Symbols :=
  fold_left
    (fun self '(idx, x) =>
       Symbols_add_for_h (mkSymbols (Symbols_s self) (Symbols_h self ++ [x])) x idx)
    (enumerate h) self.

Definition axes : list string := ["x"; "y"; "z"].

(** The lines 49 to 56: one hailstone per line of the file. *)
Definition parse_line (l : string) : Py H :=
  match split l " @ " with
  | [s; d] =>
      s <- for_each (split s ", ") (fun tok acc =>
             x <- lift (py_float tok) ;; ret (acc ++ [x])) [] ;;
      d <- for_each (split d ", ") (fun tok acc =>
             x <- lift (py_float tok) ;; ret (acc ++ [x])) [] ;;
      ret (mkH s d)
  | _ => raise ValueError
  end.

Definition read_data (lines : list string) : Py (list H) :=
  for_each lines (fun l data => h <- parse_line l ;; ret (data ++ [h])) [].

(** The loop of lines 31 to 37 of [Symbols.solve]: one equation per
    hailstone and axis, [s1 + v1*t1 - s - v*t1]. *)
Definition equation_loop (self : Symbols) : Py (list expr) :=
  for_each (enumerate (Symbols_h self)) (fun '(i, h) equations =>
    for_each (enumerate axes) (fun '(vi, p) equations =>
      hs <- getitem (H_s h) vi ;;
      hd <- getitem (H_d h) vi ;;
      ti <- dict_get (Symbols_s self) (tname i) ;;
      sp <- dict_get (Symbols_s self) ("s" ++ p)%string ;;
      dp <- dict_get (Symbols_s self) ("d" ++ p)%string ;;
      ti' <- dict_get (Symbols_s self) (tname i) ;;
      ret (equations ++
           [Sub (Sub (Add (Num hs) (Mul (Num hd) (Sym ti))) (Sym sp))
                (Mul (Sym dp) (Sym ti'))]))
      equations) [].

Section Solver.

(** [sympy.solve(equations, symbols)]: the list of solutions, each a
    tuple with one number per symbol. *)
Variable sympy_solve : list expr -> list symbol -> list (list Q).

(** [Symbols.solve] *)
Definition Symbols_solve (self : Symbols) : Py (list Q) :=
  equations <- equation_loop self ;;
  for_each equations (fun e _ => print [OExpr e]) tt ;;;
  let v := dict_values (Symbols_s self) in
  getitem (sympy_solve equations v) 0.

(** The script from line 58 on, given the hailstones. *)
Definition report (data : list H) : Py Q :=
  for_each data (fun h _ => print [OHail h]) tt ;;;
  let s := Symbols_add_all Symbols_init data in
  print [OStr "SYMBOLS ADDED: "; ODict (Symbols_s s)] ;;;
  result <- Symbols_solve s ;;
  print [OStr "Place: "; OTuple (firstn 6 result)] ;;;
  r0 <- getitem result 0 ;;
  r1 <- getitem result 1 ;;
  r2 <- getitem result 2 ;;
  print [OStr "SUM OF POSITION"; ONum (r0 + r1 + r2)] ;;;
  ret (r0 + r1 + r2).

(** The whole script on the lines of the file named by [sys.argv[1]]. *)
Definition main (lines : list string) : Py Q :=
  data <- read_data lines ;;
  report data.

End Solver.

(** [solve] on a sequence of hailstones: register them, then solve. *)
Definition solve (sympy_solve : list expr -> list symbol -> list (list Q))
    (hailstones : list H) : Py (list Q) :=
  Symbols_solve sympy_solve (Symbols_add_all Symbols_init hailstones).

(** ** The worked example *)

Definition canonical_lines : list string :=
  map (fun l => (l ++ nl)%string)
    ["19, 13, 30 @ -2, 1, -2";
     "18, 19, 22 @ -1, -1, -2";
     "20, 25, 34 @ -2, -2, -4";
     "12, 31, 28 @ -1, -2, -1";
     "20, 19, 15 @ 1, -5, -3"].

Definition hail (px py pz vx vy vz : Z) : H :=
  mkH (map (fun z => PyFloat (float_of_Z false z)) [px; py; pz])
      (map (fun z => PyFloat (float_of_Z (z <? 0)%Z z)) [vx; vy; vz]).

Definition canonical : list H :=
  [hail 19 13 30 (-2) 1 (-2);
   hail 18 19 22 (-1) (-1) (-2);
   hail 20 25 34 (-2) (-2) (-4);
   hail 12 31 28 (-1) (-2) (-1);
   hail 20 19 15 1 (-5) (-3)].

(** * The vocabulary of the properties *)

(** The unknowns of a run over [n] hailstones, in the order of the table. *)
Definition unknowns (n : nat) : list symbol :=
  target_names ++ map tname (seq 0 n).

(** A table that binds every name to the symbol of that name. *)
Definition self_named (names : list string) : dict symbol :=
  map (fun x => (x, sympy_symbols x)) names.

(** A hailstone with three coordinates at least in each list. *)
Definition has3 (h : H) : bool :=
  (Nat.leb 3 (List.length (H_s h)) && Nat.leb 3 (List.length (H_d h)))%bool.

(** The equation of hailstone [i] on the axis [p]. *)
Definition equation (hs hd : pynum) (i : nat) (p : string) : expr :=
  Sub (Sub (Add (Num hs) (Mul (Num hd) (Sym (tname i)))) (Sym ("s" ++ p)%string))
      (Mul (Sym ("d" ++ p)%string) (Sym (tname i))).

Definition hail_equations (i : nat) (h : H) : list expr :=
  map (fun '(vi, p) =>
         equation (nth vi (H_s h) (PyInt 0)) (nth vi (H_d h) (PyInt 0)) i p)
      (enumerate axes).

Definition equations_from (k : nat) (hs : list H) : list expr :=
  flat_map (fun '(i, h) => hail_equations i h) (combine (seq k (List.length hs)) hs).

Definition equations_of (hs : list H) : list expr := equations_from 0 hs.

(** What is on standard output when [solve] is called. *)
Definition before_solve (data : list H) (out : stdout) : stdout :=
  (out ++ map (fun h => [OHail h]) data)
    ++ [[OStr "SYMBOLS ADDED: "; ODict (self_named (unknowns (List.length data)))]].

(** ** Solutions *)

(** The value a tuple gives to a symbol, by position in the symbol list. *)
Definition value_of (syms : list symbol) (t : list Q) (x : symbol) : option Q :=
  dict_find (combine syms t) x.

Definition assign (syms : list symbol) (t : list Q) : symbol -> Q :=
  fun x => match value_of syms t x with Some q => q | None => 0 end.

(** [t] has one number per symbol and makes every equation vanish. *)
Definition satisfies (eqs : list expr) (syms : list symbol) (t : list Q) : Prop :=
  List.length t = List.length syms /\
  Forall (fun e => eval (assign syms t) e == 0) eqs.

(** What is assumed of [sympy.solve] on a system: whatever it reports
    is a solution. *)
Definition sound_on (solver : list expr -> list symbol -> list (list Q))
    (eqs : list expr) (syms : list symbol) : Prop :=
  forall t, In t (solver eqs syms) -> satisfies eqs syms t.

Definition holds (eqs : list expr) (syms : list symbol) (t : list Q) : bool :=
  (Nat.eqb (List.length t) (List.length syms) &&
   forallb (fun e => Qeq_bool (eval (assign syms t) e) 0) eqs)%bool.

(** A solver that checks given candidates and reports those that solve
    the system: the simplest solver that is sound on every system. *)
Definition candidate_solver (cands : list (list Q))
    (eqs : list expr) (syms : list symbol) : list (list Q) :=
  filter (holds eqs syms) cands.

(** ** Shapes of inputs and systems *)


(** The failures the specification names; the script raises neither. *)
Definition InsufficientData : string := "InsufficientData".


(** Three hailstones on the first axis, one unit apart, all with the
    velocity [(0, 1, 0)]. *)
Definition parallel : list H :=
  [hail 0 0 0 0 1 0; hail 1 0 0 0 1 0; hail 2 0 0 0 1 0].


(** ** Targets, times and meetings *)

(** The value of the coordinate [vi] of a list of a hailstone. *)
Definition coord (l : list pynum) (vi : nat) : Q := num_value (nth vi l (PyInt 0)).

(** A tuple read as the script reads it: position, velocity, then one
    time per hailstone. *)
Definition target_position (t : list Q) : list Q := firstn 3 t.
Definition target_velocity (t : list Q) : list Q := firstn 3 (skipn 3 t).
Definition time_of (t : list Q) (i : nat) : Q := nth (6 + i) t 0.

(** At [time] the hailstone [h] and the target that starts at [S] with
    velocity [D] are at the same place: [s1 + v1*t1 = s + v*t1] on the
    three axes. *)
Definition meets (h : H) (S D : list Q) (time : Q) : Prop :=
  forall vi, (vi < 3)%nat ->
    coord (H_s h) vi + coord (H_d h) vi * time == nth vi S 0 + nth vi D 0 * time.

(** ** Lines of the input *)











(** A computation that prints nothing and does not look at the output. *)
Definition silent {A} (m : Py A) : Prop := forall out, m out = (fst (m []), out).

(** The outcome of parsing a line. *)
Definition parsed (l : string) : outcome H := fst (parse_line l []).

(** * Properties *)

(** ** The model on small inputs *)

Example split_line :
  split ("19, 13, 30 @ -2, 1, -2" ++ nl)%string " @ "
  = ["19, 13, 30"; ("-2, 1, -2" ++ nl)%string].
Proof. reflexivity. Qed.

Example split_coordinates : split "19, 13, 30" ", " = ["19"; "13"; "30"].
Proof. reflexivity. Qed.

Example float_minus_2 :
  py_float ("-2" ++ nl)%string
  = Returned (PyFloat (S754_finite true 4503599627370496 (-51))).
Proof. vm_compute. reflexivity. Qed.

Example float_rejects_empty : py_float "" = Raised ValueError.
Proof. reflexivity. Qed.

Example line_without_separator :
  fst (parse_line "19, 13, 30" []) = Raised ValueError.
Proof. reflexivity. Qed.

Example table_of_two :
  dict_keys (Symbols_s (Symbols_add_all Symbols_init
                          [mkH [] []; mkH [] []]))
  = ["sx"; "sy"; "sz"; "dx"; "dy"; "dz"; "t0"; "t1"].
Proof. reflexivity. Qed.

(** ** The symbol table *)

Lemma dict_set_fresh {V} (d : dict V) k v :
  ~ In k (dict_keys d) -> dict_set d k v = d ++ [(k, v)].
Proof.
  induction d as [|[k' v'] d IH]; simpl; intros Hk; [reflexivity|].
  destruct (String.eqb_spec k' k) as [->|_].
  - exfalso. apply Hk. now left.
  - f_equal. apply IH. intros Hin. apply Hk. now right.
Qed.

Lemma dict_keys_app {V} (d1 d2 : dict V) :
  dict_keys (d1 ++ d2) = dict_keys d1 ++ dict_keys d2.
Proof. apply map_app. Qed.

Lemma dict_find_self_named names k :
  In k names -> dict_find (self_named names) k = Some k.
Proof.
  induction names as [|n names IH]; simpl; [tauto|].
  intros [->|Hin].
  - now rewrite String.eqb_refl.
  - destruct (String.eqb_spec n k) as [->|_]; [reflexivity|auto].
Qed.

Lemma self_named_keys names : dict_keys (self_named names) = names.
Proof.
  unfold dict_keys, self_named. rewrite map_map. simpl. apply map_id.
Qed.

Lemma self_named_values names : dict_values (self_named names) = names.
Proof.
  unfold dict_values, self_named. rewrite map_map. simpl. apply map_id.
Qed.

Lemma str_nat_inj i j : str_nat i = str_nat j -> i = j.
Proof.
  unfold str_nat. intros E.
  apply Unsigned.to_uint_inj.
  assert (Some (Nat.to_uint i) = Some (Nat.to_uint j)) as [=]; [|assumption].
  rewrite <- !NilEmpty.usu. now rewrite E.
Qed.

Lemma tname_inj i j : tname i = tname j -> i = j.
Proof. unfold tname. simpl. intros [=]. now apply str_nat_inj. Qed.

Lemma tname_not_target i : ~ In (tname i) target_names.
Proof.
  unfold tname, target_names. simpl.
  intros [E|[E|[E|[E|[E|[E|[]]]]]]]; discriminate E.
Qed.

Lemma tname_not_in_later d k i :
  (forall j, (k <= j)%nat -> ~ In (tname j) (dict_keys d)) ->
  (S k <= i)%nat ->
  ~ In (tname i) (dict_keys (d ++ [(tname k, sympy_symbols (tname k))])).
Proof.
  intros Hd Hi. rewrite dict_keys_app, in_app_iff. simpl.
  intros [Hin|[E|[]]].
  - apply (Hd i); [lia|assumption].
  - apply tname_inj in E. lia.
Qed.

(** [add_all] from index [k] on: every hailstone joins [_h] and its time
    unknown goes last in the table. *)
Lemma add_all_from (hs : list H) : forall k d hl,
  (forall j, (k <= j)%nat -> ~ In (tname j) (dict_keys d)) ->
  fold_left
    (fun self '(idx, x) =>
       Symbols_add_for_h (mkSymbols (Symbols_s self) (Symbols_h self ++ [x])) x idx)
    (combine (seq k (List.length hs)) hs) (mkSymbols d hl)
  = mkSymbols (d ++ self_named (map tname (seq k (List.length hs)))) (hl ++ hs).
Proof.
  induction hs as [|h hs IH]; intros k d hl Hd; simpl.
  - now rewrite !List.app_nil_r.
  - unfold Symbols_add_for_h at 2. simpl.
    rewrite dict_set_fresh by (apply Hd; lia).
    rewrite IH by (intros j Hj; apply tname_not_in_later; assumption).
    now rewrite <- !List.app_assoc.
Qed.

Lemma Symbols_init_table : Symbols_init = mkSymbols (self_named target_names) [].
Proof. reflexivity. Qed.

Lemma add_all_table (hs : list H) :
  Symbols_add_all Symbols_init hs
  = mkSymbols (self_named (unknowns (List.length hs))) hs.
Proof.
  unfold Symbols_add_all, enumerate. rewrite Symbols_init_table.
  rewrite add_all_from.
  - unfold unknowns, self_named. now rewrite map_app.
  - intros j _. rewrite self_named_keys. apply tname_not_target.
Qed.

(** ** The loops of [solve] *)

Ltac run_py :=
  unfold bind, ret, raise, getitem, dict_get, lift, print; simpl.

Lemma axis_loop d i h acc out :
  (forall x, In x target_names -> dict_find d x = Some x) ->
  dict_find d (tname i) = Some (tname i) ->
  for_each (enumerate axes) (fun '(vi, p) equations =>
      hs <- getitem (H_s h) vi ;;
      hd <- getitem (H_d h) vi ;;
      ti <- dict_get d (tname i) ;;
      sp <- dict_get d ("s" ++ p)%string ;;
      dp <- dict_get d ("d" ++ p)%string ;;
      ti' <- dict_get d (tname i) ;;
      ret (equations ++
           [Sub (Sub (Add (Num hs) (Mul (Num hd) (Sym ti))) (Sym sp))
                (Mul (Sym dp) (Sym ti'))])) acc out
  = if has3 h then (Returned (acc ++ hail_equations i h), out)
    else (Raised IndexError, out).
Proof.
  intros Ht Hi.
  assert (Hsx := Ht "sx"). assert (Hsy := Ht "sy"). assert (Hsz := Ht "sz").
  assert (Hdx := Ht "dx"). assert (Hdy := Ht "dy"). assert (Hdz := Ht "dz").
  simpl in Hsx, Hsy, Hsz, Hdx, Hdy, Hdz.
  destruct h as [l1 l2]. unfold has3, hail_equations. simpl.
  destruct l1 as [|a1 [|b1 [|c1 l1]]]; destruct l2 as [|a2 [|b2 [|c2 l2]]];
    run_py;
    rewrite ?Hi, ?Hsx, ?Hsy, ?Hsz, ?Hdx, ?Hdy, ?Hdz by tauto; simpl;
    rewrite <- ?List.app_assoc; try reflexivity.
Qed.

Lemma hail_loop d (hs : list H) : forall k acc out,
  (forall x, In x target_names -> dict_find d x = Some x) ->
  (forall i, (k <= i < k + List.length hs)%nat ->
             dict_find d (tname i) = Some (tname i)) ->
  for_each (combine (seq k (List.length hs)) hs) (fun '(i, h) equations =>
    for_each (enumerate axes) (fun '(vi, p) equations =>
      hs <- getitem (H_s h) vi ;;
      hd <- getitem (H_d h) vi ;;
      ti <- dict_get d (tname i) ;;
      sp <- dict_get d ("s" ++ p)%string ;;
      dp <- dict_get d ("d" ++ p)%string ;;
      ti' <- dict_get d (tname i) ;;
      ret (equations ++
           [Sub (Sub (Add (Num hs) (Mul (Num hd) (Sym ti))) (Sym sp))
                (Mul (Sym dp) (Sym ti'))]))
      equations) acc out
  = if forallb has3 hs then (Returned (acc ++ equations_from k hs), out)
    else (Raised IndexError, out).
Proof.
  induction hs as [|h hs IH]; intros k acc out Ht Hi.
  - simpl. unfold ret, equations_from. simpl. now rewrite List.app_nil_r.
  - cbn [List.length seq combine for_each forallb].
    unfold bind at 1. rewrite axis_loop by (auto; apply Hi; simpl; lia).
    destruct (has3 h); [|reflexivity].
    cbn [andb]. rewrite IH by (auto; intros i Hr; apply Hi; simpl; lia).
    destruct (forallb has3 hs); [|reflexivity].
    unfold equations_from. cbn [List.length seq combine flat_map].
    now rewrite List.app_assoc.
Qed.

(** The loop of [solve] after [add_all]: it fails, before anything is
    printed, exactly when a hailstone has fewer than three coordinates. *)
Lemma equation_loop_spec (hs : list H) out :
  equation_loop (Symbols_add_all Symbols_init hs) out
  = if forallb has3 hs then (Returned (equations_of hs), out)
    else (Raised IndexError, out).
Proof.
  rewrite add_all_table. unfold equation_loop, enumerate. cbn [Symbols_s Symbols_h].
  rewrite hail_loop.
  - reflexivity.
  - intros x Hx. apply dict_find_self_named. unfold unknowns.
    apply in_or_app. now left.
  - intros i Hi. apply dict_find_self_named. unfold unknowns.
    apply in_or_app. right. apply in_map, in_seq. lia.
Qed.

Lemma print_loop (eqs : list expr) : forall out,
  for_each eqs (fun e _ => print [OExpr e]) tt out
  = (Returned tt, out ++ map (fun e => [OExpr e]) eqs).
Proof.
  induction eqs as [|e eqs IH]; intros out; simpl.
  - unfold ret. now rewrite List.app_nil_r.
  - unfold bind, print. rewrite IH. now rewrite <- List.app_assoc.
Qed.

(** What [solve] does on any solver, input and output so far. *)
Lemma solve_spec solver (hs : list H) out :
  solve solver hs out
  = if forallb has3 hs then
      (match solver (equations_of hs) (unknowns (List.length hs)) with
       | [] => Raised IndexError
       | r :: _ => Returned r
       end,
       out ++ map (fun e => [OExpr e]) (equations_of hs))
    else (Raised IndexError, out).
Proof.
  unfold solve, Symbols_solve. unfold bind at 1.
  rewrite equation_loop_spec.
  destruct (forallb has3 hs); [|reflexivity].
  unfold bind. rewrite print_loop.
  rewrite add_all_table. cbn [Symbols_s]. rewrite self_named_values.
  unfold getitem. simpl.
  destruct (solver _ _); reflexivity.
Qed.

(** ** [float] on integers *)

Lemma digits2_iter_xO m k :
  digits2_pos (Pos.iter xO m k) = (digits2_pos m + k)%positive.
Proof.
  induction k as [|k IH] using Pos.peano_ind.
  - simpl. lia.
  - rewrite Pos.iter_succ. simpl. rewrite IH. lia.
Qed.

Lemma Zpos_iter_xO m k :
  Zpos (Pos.iter xO m k) = (Zpos m * Zpos (2 ^ k))%Z.
Proof.
  induction k as [|k IH] using Pos.peano_ind.
  - simpl. lia.
  - rewrite Pos.iter_succ, Pos.pow_succ_r. rewrite Pos2Z.inj_xO, IH. lia.
Qed.

Lemma digits2_lower m : (2 ^ (Zpos (digits2_pos m) - 1) <= Zpos m)%Z.
Proof.
  induction m as [m IH|m IH|]; simpl digits2_pos.
  - rewrite Pos2Z.inj_succ. replace (Z.succ (Zpos (digits2_pos m)) - 1)%Z
      with (Z.succ (Zpos (digits2_pos m) - 1)) by lia.
    rewrite Z.pow_succ_r by lia. lia.
  - rewrite Pos2Z.inj_succ. replace (Z.succ (Zpos (digits2_pos m)) - 1)%Z
      with (Z.succ (Zpos (digits2_pos m) - 1)) by lia.
    rewrite Z.pow_succ_r by lia. lia.
  - simpl. lia.
Qed.

Lemma digits2_small m : (Zpos m < 2 ^ 53)%Z -> (Zpos (digits2_pos m) <= 53)%Z.
Proof.
  intros Hm. pose proof (digits2_lower m) as Hl.
  destruct (Z_le_gt_dec (Zpos (digits2_pos m)) 53) as [|Hgt]; [assumption|].
  exfalso.
  assert (2 ^ 53 <= 2 ^ (Zpos (digits2_pos m) - 1))%Z
    by (apply Z.pow_le_mono_r; lia).
  lia.
Qed.

Lemma round_aux_exact sg mz ez :
  digits2_pos mz = 53%positive -> (-1074 <= ez <= 971)%Z ->
  binary_round_aux prec64 emax64 sg (Zpos mz) ez loc_Exact = S754_finite sg mz ez.
Proof.
  intros Hd He.
  unfold binary_round_aux, shr_fexp, fexp, emin, prec64, emax64.
  cbn [Zdigits2]. rewrite Hd.
  replace (Z.max (53 + ez - 53) (3 - 1024 - 53) - ez)%Z with 0%Z by lia.
  cbn [shr shr_record_of_loc shr_m loc_of_shr_record round_nearest_even Zdigits2].
  rewrite Hd.
  replace (Z.max (53 + ez - 53) (3 - 1024 - 53) - ez)%Z with 0%Z by lia.
  cbn [shr shr_record_of_loc shr_m].
  replace (ez <=? 1024 - 53)%Z with true by (symmetry; apply Z.leb_le; lia).
  reflexivity.
Qed.

Lemma binary_round_exact sg m :
  (Zpos m < 2 ^ 53)%Z ->
  SF2Q (binary_round prec64 emax64 sg m 0) == inject_Z (if sg then Zneg m else Zpos m).
Proof.
  intros Hm. pose proof (digits2_small m Hm) as Hd.
  unfold binary_round, fexp, emin, shl_align.
  replace (Z.max (Zpos (digits2_pos m) + 0 - prec64) (3 - emax64 - prec64) - 0)%Z
    with (Zpos (digits2_pos m) - 53)%Z by (unfold prec64, emax64; lia).
  destruct (Zpos (digits2_pos m) - 53)%Z as [|p|k] eqn:E; try lia.
  - rewrite round_aux_exact by lia. unfold SF2Q, Qpow2. ring.
  - replace (Z.max (Zpos (digits2_pos m) + 0 - prec64) (3 - emax64 - prec64))
      with (Zneg k) by (unfold prec64, emax64; lia).
    rewrite round_aux_exact by (rewrite ?digits2_iter_xO; lia).
    unfold SF2Q, Qpow2. unfold Qeq. simpl Qnum. simpl Qden.
    destruct sg.
    + change (Z.neg (Pos.iter xO m k)) with (- Zpos (Pos.iter xO m k))%Z.
      rewrite Zpos_iter_xO. lia.
    + rewrite Zpos_iter_xO. lia.
Qed.

(** [float] is exact on the integers of magnitude at most [2^53]. *)
Lemma float_of_Z_exact neg z :
  (Z.abs z <= 2 ^ 53)%Z -> SF2Q (float_of_Z neg z) == inject_Z z.
Proof.
  intros Hz. destruct (Z.eq_dec (Z.abs z) (2 ^ 53)) as [E|N].
  - destruct z as [|p|p]; simpl in E; try discriminate E.
    + injection E as ->. vm_compute. reflexivity.
    + injection E as ->. vm_compute. reflexivity.
  - unfold float_of_Z, binary_normalize. destruct z as [|p|p].
    + reflexivity.
    + apply binary_round_exact. simpl in Hz, N. lia.
    + apply (binary_round_exact true). simpl in Hz, N. lia.
Qed.

(** ** The script around [solve] *)

Lemma hail_print_loop (data : list H) : forall out,
  for_each data (fun h _ => print [OHail h]) tt out
  = (Returned tt, out ++ map (fun h => [OHail h]) data).
Proof.
  induction data as [|h data IH]; intros out; simpl.
  - unfold ret. now rewrite List.app_nil_r.
  - unfold bind, print. rewrite IH. now rewrite <- List.app_assoc.
Qed.

Lemma report_spec solver (data : list H) out :
  report solver data out
  = match solve solver data (before_solve data out) with
    | (Raised cls, out2) => (Raised cls, out2)
    | (Returned r, out2) =>
        let out3 := out2 ++ [[OStr "Place: "; OTuple (firstn 6 r)]] in
        match r with
        | r0 :: r1 :: r2 :: _ =>
            (Returned (r0 + r1 + r2),
             out3 ++ [[OStr "SUM OF POSITION"; ONum (r0 + r1 + r2)]])
        | _ => (Raised IndexError, out3)
        end
    end.
Proof.
  unfold report. fold (solve solver data).
  assert (Ht : Symbols_s (Symbols_add_all Symbols_init data)
               = self_named (unknowns (List.length data)))
    by now rewrite add_all_table.
  rewrite Ht. unfold bind at 1. rewrite hail_print_loop.
  unfold bind at 1. unfold print at 1. unfold bind at 1.
  fold (before_solve data out).
  destruct (solve solver data (before_solve data out)) as [[r|cls] out2];
    [|reflexivity].
  run_py. destruct r as [|r0 [|r1 [|r2 r]]]; reflexivity.
Qed.

(** ** Solving the bilinear system *)

Local Open Scope Q_scope.

(** Two axes of one hailstone: the time cancels, and so do the products
    of the unknown velocity with the unknown time. *)
Lemma cross (a b c d S T D E t : Q) :
  a + b * t - S - D * t == 0 ->
  c + d * t - T - E * t == 0 ->
  (a - S) * (E - d) - (c - T) * (D - b) == 0.
Proof.
  intros H1 H2.
  assert (E1 : a - S == t * (D - b)) by lra.
  assert (E2 : c - T == t * (E - d)) by lra.
  rewrite E1, E2. ring.
Qed.

(** The three equations of a hailstone with integer coordinates, read
    as equations between rationals. *)
Lemma eval_hail env (px py pz vx vy vz : Z) (i : nat) :
  (Z.abs px <= 2 ^ 53 /\ Z.abs py <= 2 ^ 53 /\ Z.abs pz <= 2 ^ 53)%Z ->
  (Z.abs vx <= 2 ^ 53 /\ Z.abs vy <= 2 ^ 53 /\ Z.abs vz <= 2 ^ 53)%Z ->
  Forall (fun e => eval env e == 0) (hail_equations i (hail px py pz vx vy vz)) ->
  inject_Z px + inject_Z vx * env (tname i) - env "sx"%string
    - env "dx"%string * env (tname i) == 0 /\
  inject_Z py + inject_Z vy * env (tname i) - env "sy"%string
    - env "dy"%string * env (tname i) == 0 /\
  inject_Z pz + inject_Z vz * env (tname i) - env "sz"%string
    - env "dz"%string * env (tname i) == 0.
Proof.
  intros (Hx & Hy & Hz) (Hvx & Hvy & Hvz) Hall.
  unfold hail_equations, hail in Hall.
  cbn [map enumerate axes List.length seq combine H_s H_d nth] in Hall.
  inversion_clear Hall as [|? ? E1 Hall1].
  inversion_clear Hall1 as [|? ? E2 Hall2].
  inversion_clear Hall2 as [|? ? E3 _].
  cbn [eval equation num_value] in E1, E2, E3.
  rewrite !float_of_Z_exact in E1, E2, E3 by assumption.
  auto.
Qed.

(** The first three hailstones of the worked example leave one target. *)
Lemma canonical_unique (sx sy sz dx dy dz t0 t1 t2 : Q) :
  19 + -2 * t0 - sx - dx * t0 == 0 ->
  13 + 1 * t0 - sy - dy * t0 == 0 ->
  30 + -2 * t0 - sz - dz * t0 == 0 ->
  18 + -1 * t1 - sx - dx * t1 == 0 ->
  19 + -1 * t1 - sy - dy * t1 == 0 ->
  22 + -2 * t1 - sz - dz * t1 == 0 ->
  20 + -2 * t2 - sx - dx * t2 == 0 ->
  25 + -2 * t2 - sy - dy * t2 == 0 ->
  34 + -4 * t2 - sz - dz * t2 == 0 ->
  sx == 24 /\ sy == 13 /\ sz == 10 /\ dx == -3 /\ dy == 1 /\ dz == 2.
Proof.
  intros X0 Y0 Z0 X1 Y1 Z1 X2 Y2 Z2.
  pose proof (cross _ _ _ _ _ _ _ _ _ X0 Y0) as A0.
  pose proof (cross _ _ _ _ _ _ _ _ _ Y0 Z0) as B0.
  pose proof (cross _ _ _ _ _ _ _ _ _ X0 Z0) as C0.
  pose proof (cross _ _ _ _ _ _ _ _ _ X1 Y1) as A1.
  pose proof (cross _ _ _ _ _ _ _ _ _ Y1 Z1) as B1.
  pose proof (cross _ _ _ _ _ _ _ _ _ X1 Z1) as C1.
  pose proof (cross _ _ _ _ _ _ _ _ _ X2 Y2) as A2.
  pose proof (cross _ _ _ _ _ _ _ _ _ Y2 Z2) as B2.
  pose proof (cross _ _ _ _ _ _ _ _ _ X2 Z2) as C2.
  clear X0 Y0 Z0 X1 Y1 Z1 X2 Y2 Z2.
  repeat split; lra.
Qed.

Lemma Forall_app_l {A} (P : A -> Prop) l1 l2 : Forall P (l1 ++ l2) -> Forall P l1.
Proof. intros Hf. now apply Forall_app in Hf. Qed.

Lemma Forall_app_r {A} (P : A -> Prop) l1 l2 : Forall P (l1 ++ l2) -> Forall P l2.
Proof. intros Hf. now apply Forall_app in Hf. Qed.

(** Every solution of the system of the worked example has the target
    position [(24, 13, 10)] and velocity [(-3, 1, 2)]. *)
Lemma canonical_solutions (t : list Q) :
  satisfies (equations_of canonical) (unknowns 5) t ->
  exists sx sy sz dx dy dz times,
    t = sx :: sy :: sz :: dx :: dy :: dz :: times /\
    sx == 24 /\ sy == 13 /\ sz == 10 /\ dx == -3 /\ dy == 1 /\ dz == 2.
Proof.
  intros [Hlen Hall].
  do 11 (destruct t as [|? t]; try discriminate Hlen).
  destruct t; try discriminate Hlen. clear Hlen.
  do 7 eexists. split; [reflexivity|].
  unfold equations_of, equations_from, canonical in Hall.
  cbn [List.length seq combine flat_map] in Hall.
  pose proof (Forall_app_l _ _ _ Hall) as H0.
  apply Forall_app_r in Hall. pose proof (Forall_app_l _ _ _ Hall) as H1.
  apply Forall_app_r in Hall. pose proof (Forall_app_l _ _ _ Hall) as H2.
  clear Hall.
  apply eval_hail in H0; [|simpl; lia..].
  apply eval_hail in H1; [|simpl; lia..].
  apply eval_hail in H2; [|simpl; lia..].
  destruct H0 as (X0 & Y0 & Z0), H1 as (X1 & Y1 & Z1), H2 as (X2 & Y2 & Z2).
  apply (canonical_unique _ _ _ _ _ _ _ _ _ X0 Y0 Z0 X1 Y1 Z1 X2 Y2 Z2).
Qed.

Lemma holds_satisfies eqs syms t : holds eqs syms t = true -> satisfies eqs syms t.
Proof.
  unfold holds, satisfies. intros Hh.
  apply andb_prop in Hh as [Hlen Hall]. split.
  - now apply Nat.eqb_eq.
  - apply Forall_forall. intros e He.
    rewrite forallb_forall in Hall. apply Qeq_bool_eq. now apply Hall.
Qed.

Lemma candidate_solver_sound cands eqs syms :
  sound_on (candidate_solver cands) eqs syms.
Proof.
  intros t Hin. apply filter_In in Hin as [_ Hh]. now apply holds_satisfies.
Qed.

Lemma read_canonical out : read_data canonical_lines out = (Returned canonical, out).
Proof. vm_compute. reflexivity. Qed.

(** * The claims *)

(** C1.  On the five hailstones of the worked example, and with a solver
    that reports at least one solution and only solutions of the system
    it is given, [solve] returns a tuple that starts with the position
    [(24, 13, 10)] and the velocity [(-3, 1, 2)], and the script reports
    the sum [47]. *)
Theorem canonical_answer solver out :
  sound_on solver (equations_of canonical) (unknowns 5) ->
  solver (equations_of canonical) (unknowns 5) <> [] ->
  exists r q out1 out2,
    solve solver canonical out = (Returned r, out1) /\
    Forall2 Qeq (firstn 6 r) [24; 13; 10; -3; 1; 2] /\
    main solver canonical_lines out = (Returned q, out2) /\
    q == 47.
Proof.
  intros Hsound Hsome.
  destruct (solver (equations_of canonical) (unknowns 5)) as [|r rest] eqn:Es;
    [congruence|].
  destruct (canonical_solutions r) as
    (sx & sy & sz & dx & dy & dz & times & -> & Hsx & Hsy & Hsz & Hdx & Hdy & Hdz).
  { apply Hsound. rewrite Es. now left. }
  exists (sx :: sy :: sz :: dx :: dy :: dz :: times), (sx + sy + sz).
  do 2 eexists. split; [|split; [|split]].
  - rewrite solve_spec. cbn [forallb has3 canonical hail H_s H_d map List.length
      Nat.leb andb]. rewrite Es. reflexivity.
  - cbn [firstn]. repeat constructor; assumption.
  - unfold main, bind. rewrite read_canonical, report_spec, solve_spec.
    cbn [forallb has3 canonical hail H_s H_d map List.length Nat.leb andb].
    rewrite Es. reflexivity.
  - rewrite Hsx, Hsy, Hsz. reflexivity.
Qed.

Lemma canonical_answer_witness :
  exists r q out1 out2,
    solve (candidate_solver [[24; 13; 10; -3; 1; 2; 5; 3; 4; 6; 1]]) canonical []
      = (Returned r, out1) /\
    Forall2 Qeq (firstn 6 r) [24; 13; 10; -3; 1; 2] /\
    main (candidate_solver [[24; 13; 10; -3; 1; 2; 5; 3; 4; 6; 1]])
      canonical_lines [] = (Returned q, out2) /\
    q == 47.
Proof.
  apply (canonical_answer (candidate_solver [[24; 13; 10; -3; 1; 2; 5; 3; 4; 6; 1]]) []).
  - apply candidate_solver_sound.
  - vm_compute. discriminate.
Defined.



(** ** The shape of the system *)

Lemma hail_equations_length i h : List.length (hail_equations i h) = 3%nat.
Proof. reflexivity. Qed.

Lemma equations_from_length (hs : list H) : forall k,
  List.length (equations_from k hs) = (3 * List.length hs)%nat.
Proof.
  induction hs as [|h hs IH]; intros k; [reflexivity|].
  unfold equations_from in *. cbn [List.length seq combine flat_map].
  rewrite length_app, hail_equations_length, IH. lia.
Qed.






(** C4, counterexample.  The worked example has five hailstones and its
    system has fifteen equations, not six. *)
Lemma fifteen_equations :
  (3 <= List.length canonical)%nat /\
  exists eqs,
    equation_loop (Symbols_add_all Symbols_init canonical) [] = (Returned eqs, []) /\
    List.length eqs = 15%nat /\ List.length eqs <> 6%nat.
Proof.
  split; [simpl; lia|]. exists (equations_of canonical). split; [|split].
  - now rewrite equation_loop_spec.
  - reflexivity.
  - discriminate.
Qed.

(** C4, amended.  The solver builds its system hailstone by hailstone,
    without pairing: three equations, one per axis, for each of the [N]
    hailstones in their order, [3 * N] equations in all. *)
Theorem three_equations_per_hailstone (hs : list H) out eqs out' :
  equation_loop (Symbols_add_all Symbols_init hs) out = (Returned eqs, out') ->
  eqs = flat_map (fun '(i, h) => hail_equations i h) (enumerate hs) /\
  List.length eqs = (3 * List.length hs)%nat.
Proof.
  rewrite equation_loop_spec. destruct (forallb has3 hs); [|discriminate].
  intros [= <- _]. split; [reflexivity|]. apply equations_from_length.
Qed.

Lemma three_equations_per_hailstone_witness :
  equations_of canonical
  = flat_map (fun '(i, h) => hail_equations i h) (enumerate canonical) /\
  List.length (equations_of canonical) = (3 * List.length canonical)%nat.
Proof.
  apply (three_equations_per_hailstone canonical [] (equations_of canonical) []).
  vm_compute. reflexivity.
Defined.

(** ** Failures *)

(** C5, counterexample.  With no hailstone at all the solver is asked an
    empty system, and when it reports no solution the failure is
    [IndexError]; with one hailstone and a solver that reports a solution
    [solve] returns it. *)
Lemma no_insufficient_data :
  (List.length (@nil H) < 3)%nat /\
  fst (solve (candidate_solver []) [] []) = Raised IndexError /\
  fst (solve (candidate_solver []) [] []) <> Raised InsufficientData /\
  (List.length [hail 19 13 30 (-2) 1 (-2)] < 3)%nat /\
  fst (solve (candidate_solver [[19; 13; 30; 0; 0; 0; 0]])
         [hail 19 13 30 (-2) 1 (-2)] [])
  = Returned [19; 13; 30; 0; 0; 0; 0].
Proof.
  split; [simpl; lia|]. split; [reflexivity|]. split; [discriminate|].
  split; [simpl; lia|]. vm_compute. reflexivity.
Qed.

(** C5, amended.  [solve] checks neither the number of hailstones nor
    their directions and never fails with [InsufficientData]: it fails
    with [IndexError] when a hailstone has fewer than three coordinates
    in a list or when the solver reports no solution, and returns the
    first reported solution otherwise. *)
Theorem solve_outcome solver (hs : list H) out :
  fst (solve solver hs out)
  = (if forallb has3 hs then
       match solver (equations_of hs) (unknowns (List.length hs)) with
       | [] => Raised IndexError
       | r :: _ => Returned r
       end
     else Raised IndexError) /\
  fst (solve solver hs out) <> Raised InsufficientData.
Proof.
  rewrite solve_spec.
  destruct (forallb has3 hs); [destruct (solver _ _)|]; split;
    try reflexivity; discriminate.
Qed.





(** ** Output and determinism *)


(** C9, counterexample.  On the worked example [solve] writes fifteen
    lines to the standard output. *)
Lemma solve_prints :
  snd (solve (candidate_solver []) canonical []) <> [] /\
  List.length (snd (solve (candidate_solver []) canonical [])) = 15%nat.
Proof.
  rewrite solve_spec. cbn [forallb has3 canonical hail H_s H_d map List.length
    Nat.leb andb snd app]. split; [discriminate|reflexivity].
Qed.

(** C9, amended.  [solve] prints every equation of the system, one call
    of [print] per equation and in their order, before it calls the
    solver; it prints nothing else, and its result is the first solution
    of the solver or the failure [IndexError]. *)
Theorem solve_prints_equations solver (hs : list H) out :
  snd (solve solver hs out)
  = out ++ (if forallb has3 hs
            then map (fun e => [OExpr e]) (equations_of hs) else []) /\
  List.length (snd (solve solver hs out))
  = (List.length out + (if forallb has3 hs then 3 * List.length hs else 0))%nat /\
  ((exists r, fst (solve solver hs out) = Returned r /\
              exists rest, solver (equations_of hs) (unknowns (List.length hs))
                           = r :: rest)
   \/ fst (solve solver hs out) = Raised IndexError).
Proof.
  rewrite solve_spec. destruct (forallb has3 hs); cbn [fst snd].
  - split; [reflexivity|]. split.
    + rewrite length_app, length_map. unfold equations_of.
      now rewrite equations_from_length.
    + destruct (solver _ _) as [|r rest]; [now right|].
      left. exists r. split; [reflexivity|]. now exists rest.
  - rewrite List.app_nil_r. split; [reflexivity|]. split; [lia|now right].
Qed.

(** ** Parsing *)









(** ** The order of the unknowns *)

Example tname_12 : tname 12 = "t12"%string.
Proof. reflexivity. Qed.



(** * Further properties of the code *)

(** ** The symbol table as a map *)

Lemma NoDup_tnames k n : NoDup (map tname (seq k n)).
Proof.
  revert k. induction n as [|n IH]; intros k; simpl; constructor.
  - intros Hin. apply in_map_iff in Hin as (j & E & Hj).
    apply tname_inj in E. apply in_seq in Hj. lia.
  - apply IH.
Qed.

Lemma NoDup_unknowns n : NoDup (unknowns n).
Proof.
  unfold unknowns. apply NoDup_app.
  - unfold target_names. repeat constructor; simpl; intuition discriminate.
  - apply NoDup_tnames.
  - intros a Ha Hin. apply in_map_iff in Hin as (i & <- & _).
    now apply (tname_not_target i).
Qed.

Lemma dict_find_combine_notin (syms : list symbol) : forall (t : list Q) x,
  ~ In x syms -> dict_find (combine syms t) x = None.
Proof.
  induction syms as [|y syms IH]; intros t x Hx; [reflexivity|].
  destruct t as [|q t]; [reflexivity|]. simpl.
  destruct (String.eqb_spec y x) as [->|_].
  - exfalso. apply Hx. now left.
  - apply IH. intros Hin. apply Hx. now right.
Qed.

Lemma value_of_nth (syms : list symbol) : forall (t : list Q) k x,
  NoDup syms -> nth_error syms k = Some x ->
  value_of syms t x = nth_error t k.
Proof.
  unfold value_of.
  induction syms as [|y syms IH]; intros t k x Hnd Hk.
  - destruct k; discriminate.
  - inversion_clear Hnd as [|? ? Hy Hnd'].
    destruct k as [|k]; simpl in Hk.
    + injection Hk as ->. destruct t as [|q t]; [reflexivity|].
      simpl. now rewrite String.eqb_refl.
    + destruct t as [|q t]; [reflexivity|]. simpl.
      destruct (String.eqb_spec y x) as [->|_].
      * exfalso. apply Hy. eapply nth_error_In; eassumption.
      * now apply IH.
Qed.

Lemma nth_error_unknowns_time n i :
  (i < n)%nat -> nth_error (unknowns n) (6 + i) = Some (tname i).
Proof.
  intros Hi. unfold unknowns.
  rewrite nth_error_app2 by (simpl; lia).
  replace (6 + i - List.length target_names)%nat with i by (simpl; lia).
  rewrite nth_error_map, nth_error_seq.
  destruct (Nat.ltb_spec i n); [reflexivity|lia].
Qed.

Lemma assign_nth n (t : list Q) k x :
  nth_error (unknowns n) k = Some x -> assign (unknowns n) t x = nth k t 0.
Proof.
  intros Hk. unfold assign.
  rewrite (value_of_nth _ t k x (NoDup_unknowns n) Hk).
  destruct (nth_error t k) as [q|] eqn:E.
  - symmetry. now apply nth_error_nth.
  - symmetry. apply nth_overflow. now apply nth_error_None.
Qed.

Lemma Forall_equations_from (P : expr -> Prop) (hs : list H) : forall k,
  Forall P (equations_from k hs) <->
  (forall i h, nth_error hs i = Some h -> Forall P (hail_equations (k + i) h)).
Proof.
  induction hs as [|h hs IH]; intros k.
  - split; [|constructor]. intros _ i h' Hi. destruct i; discriminate.
  - unfold equations_from in *. cbn [List.length seq combine flat_map].
    rewrite Forall_app, (IH (S k)). split.
    + intros [Hh Hrest] i h' Hi. destruct i as [|i]; simpl in Hi.
      * injection Hi as <-. now rewrite Nat.add_0_r.
      * rewrite <- Nat.add_succ_comm. now apply Hrest.
    + intros Hall. split.
      * specialize (Hall 0%nat h eq_refl). now rewrite Nat.add_0_r in Hall.
      * intros i h' Hi. rewrite Nat.add_succ_comm. now apply (Hall (S i)).
Qed.

Lemma hail_equations_meet n (t : list Q) i h :
  (i < n)%nat ->
  Forall (fun e => eval (assign (unknowns n) t) e == 0) (hail_equations i h) <->
  meets h (target_position t) (target_velocity t) (time_of t i).
Proof.
  intros Hi. unfold hail_equations.
  cbn [enumerate axes List.length seq combine map].
  assert (Ex : forall vi p,
             nth_error (unknowns n) vi = Some ("s" ++ p)%string ->
             nth_error (unknowns n) (3 + vi) = Some ("d" ++ p)%string ->
             (eval (assign (unknowns n) t)
                (equation (nth vi (H_s h) (PyInt 0)) (nth vi (H_d h) (PyInt 0)) i p) == 0
              <-> coord (H_s h) vi + coord (H_d h) vi * time_of t i
                  == nth vi t 0 + nth (3 + vi) t 0 * time_of t i)).
  { intros vi p Hs Hd. cbn [eval equation].
    rewrite (assign_nth n t _ _ Hs), (assign_nth n t _ _ Hd).
    rewrite (assign_nth n t _ _ (nth_error_unknowns_time n i Hi)).
    unfold coord, time_of. split; intros E; lra. }
  assert (Hp : forall vi, (vi < 3)%nat -> nth vi (target_position t) 0 = nth vi t 0).
  { intros vi Hvi. unfold target_position.
    rewrite <- (firstn_skipn 3 t) at 2.
    destruct (Nat.lt_ge_cases vi (List.length (firstn 3 t))) as [Hl|Hl].
    - now rewrite app_nth1.
    - rewrite (nth_overflow (firstn 3 t)) by assumption.
      rewrite length_firstn in Hl.
      symmetry. apply nth_overflow. rewrite firstn_skipn. lia. }
  assert (Hv : forall vi, (vi < 3)%nat -> nth vi (target_velocity t) 0 = nth (3 + vi) t 0).
  { intros vi Hvi. unfold target_velocity.
    replace (nth (3 + vi) t 0) with (nth vi (skipn 3 t) 0).
    - rewrite <- (firstn_skipn 3 (skipn 3 t)) at 2.
      destruct (Nat.lt_ge_cases vi (List.length (firstn 3 (skipn 3 t)))) as [Hl|Hl].
      + now rewrite app_nth1.
      + rewrite (nth_overflow (firstn 3 (skipn 3 t))) by assumption.
        rewrite length_firstn in Hl.
        symmetry. apply nth_overflow. rewrite firstn_skipn. lia.
    - clear. destruct t as [|a [|b [|c t]]]; destruct vi as [|[|[|vi]]]; reflexivity. }
  split.
  - intros Hall vi Hvi.
    inversion_clear Hall as [|? ? E0 Hall1].
    inversion_clear Hall1 as [|? ? E1 Hall2].
    inversion_clear Hall2 as [|? ? E2 _].
    rewrite (Hp vi Hvi), (Hv vi Hvi).
    destruct vi as [|[|[|vi]]]; [| | |lia].
    + apply (Ex 0%nat "x"%string); [reflexivity..|exact E0].
    + apply (Ex 1%nat "y"%string); [reflexivity..|exact E1].
    + apply (Ex 2%nat "z"%string); [reflexivity..|exact E2].
  - intros Hm. repeat constructor.
    + apply (Ex 0%nat "x"%string); [reflexivity..|].
      rewrite <- (Hp 0%nat), <- (Hv 0%nat) by lia. apply Hm. lia.
    + apply (Ex 1%nat "y"%string); [reflexivity..|].
      rewrite <- (Hp 1%nat), <- (Hv 1%nat) by lia. apply Hm. lia.
    + apply (Ex 2%nat "z"%string); [reflexivity..|].
      rewrite <- (Hp 2%nat), <- (Hv 2%nat) by lia. apply Hm. lia.
Qed.

Lemma dict_find_set_same {V} (d : dict V) k v : dict_find (dict_set d k v) k = Some v.
Proof.
  induction d as [|[k' v'] d IH]; simpl.
  - now rewrite String.eqb_refl.
  - destruct (String.eqb_spec k' k) as [->|Hne]; simpl.
    + now rewrite String.eqb_refl.
    + destruct (String.eqb_spec k' k); [congruence|exact IH].
Qed.

Lemma dict_find_set_other {V} (d : dict V) k v k' :
  k' <> k -> dict_find (dict_set d k v) k' = dict_find d k'.
Proof.
  intros Hne. induction d as [|[k0 v0] d IH]; simpl.
  - destruct (String.eqb_spec k k'); [congruence|reflexivity].
  - destruct (String.eqb_spec k0 k) as [->|Hk0]; simpl.
    + destruct (String.eqb_spec k k'); [congruence|reflexivity].
    + destruct (String.eqb_spec k0 k'); [reflexivity|exact IH].
Qed.

Lemma dict_set_bound {V} (d : dict V) k v :
  dict_find d k = Some v -> dict_set d k v = d.
Proof.
  induction d as [|[k' v'] d IH]; simpl; [discriminate|].
  destruct (String.eqb_spec k' k) as [->|Hne].
  - now intros [= ->].
  - intros Hf. now rewrite IH.
Qed.

Lemma dict_keys_set {V} (d : dict V) k v :
  dict_keys (dict_set d k v)
  = if existsb (String.eqb k) (dict_keys d) then dict_keys d else dict_keys d ++ [k].
Proof.
  induction d as [|[k' v'] d IH]; simpl; [reflexivity|].
  rewrite (String.eqb_sym k k').
  destruct (String.eqb_spec k' k) as [->|Hne]; simpl; [reflexivity|].
  rewrite IH. now destruct (existsb _ _).
Qed.

Lemma unknowns_S n : unknowns (S n) = unknowns n ++ [tname n].
Proof.
  unfold unknowns. rewrite seq_S, map_app, List.app_assoc. reflexivity.
Qed.

Lemma tname_not_unknown n i : (n <= i)%nat -> ~ In (tname i) (unknowns n).
Proof.
  intros Hi Hin. unfold unknowns in Hin. apply in_app_iff in Hin as [Hin|Hin].
  - now apply (tname_not_target i).
  - apply in_map_iff in Hin as (j & E & Hj). apply tname_inj in E.
    apply in_seq in Hj. lia.
Qed.

(** [add_all] on a table that has the time unknowns below [n]: from the
    index [k <= n] on, present names are kept and missing ones are added. *)
Lemma add_all_again (hs : list H) : forall k n hl,
  (k <= n)%nat ->
  fold_left
    (fun self '(idx, x) =>
       Symbols_add_for_h (mkSymbols (Symbols_s self) (Symbols_h self ++ [x])) x idx)
    (combine (seq k (List.length hs)) hs) (mkSymbols (self_named (unknowns n)) hl)
  = mkSymbols (self_named (unknowns (Nat.max n (k + List.length hs)))) (hl ++ hs).
Proof.
  induction hs as [|h hs IH]; intros k n hl Hk;
    cbn [List.length seq combine fold_left].
  - rewrite Nat.add_0_r, Nat.max_l by lia. now rewrite List.app_nil_r.
  - unfold Symbols_add_for_h at 2. cbn [Symbols_s Symbols_h].
    destruct (Nat.eq_dec k n) as [->|Hne].
    + rewrite dict_set_fresh
        by (rewrite self_named_keys; apply tname_not_unknown; lia).
      replace (self_named (unknowns n) ++ [(tname n, sympy_symbols (tname n))])
        with (self_named (unknowns (S n)))
        by (rewrite unknowns_S; unfold self_named; now rewrite map_app).
      rewrite IH by lia. rewrite <- List.app_assoc. f_equal. f_equal. f_equal. lia.
    + rewrite dict_set_bound.
      * rewrite IH by lia. rewrite <- List.app_assoc. f_equal. f_equal. f_equal. lia.
      * unfold sympy_symbols. apply dict_find_self_named.
        unfold unknowns. apply in_or_app. right.
        apply in_map, in_seq. lia.
Qed.

Lemma add_all_twice (hs1 hs2 : list H) :
  Symbols_add_all (Symbols_add_all Symbols_init hs1) hs2
  = mkSymbols (self_named (unknowns (Nat.max (List.length hs1) (List.length hs2))))
              (hs1 ++ hs2).
Proof.
  rewrite add_all_table. unfold Symbols_add_all, enumerate.
  rewrite add_all_again by lia. reflexivity.
Qed.

Lemma dict_find_self_named_none names k :
  ~ In k names -> dict_find (self_named names) k = None.
Proof.
  induction names as [|n names IH]; simpl; [reflexivity|].
  intros Hk. destruct (String.eqb_spec n k) as [->|_]; [tauto|].
  apply IH. tauto.
Qed.

Lemma axis_loop_missing d i h acc out :
  dict_find d (tname i) = None ->
  has3 h = true ->
  for_each (enumerate axes) (fun '(vi, p) equations =>
      hs <- getitem (H_s h) vi ;;
      hd <- getitem (H_d h) vi ;;
      ti <- dict_get d (tname i) ;;
      sp <- dict_get d ("s" ++ p)%string ;;
      dp <- dict_get d ("d" ++ p)%string ;;
      ti' <- dict_get d (tname i) ;;
      ret (equations ++
           [Sub (Sub (Add (Num hs) (Mul (Num hd) (Sym ti))) (Sym sp))
                (Mul (Sym dp) (Sym ti'))])) acc out
  = (Raised KeyError, out).
Proof.
  intros Hi Hh. destruct h as [l1 l2]. unfold has3 in Hh. simpl in Hh.
  destruct l1 as [|a1 [|b1 [|c1 l1]]]; try discriminate Hh;
  destruct l2 as [|a2 [|b2 [|c2 l2]]]; try discriminate Hh.
  cbn [enumerate axes List.length seq combine for_each H_s H_d].
  unfold bind at 1. unfold bind at 1. unfold getitem at 1. cbn [nth_error].
  unfold ret at 1. unfold bind at 1. unfold getitem at 1. cbn [nth_error].
  unfold ret at 1. unfold bind at 1. unfold dict_get at 1. rewrite Hi.
  reflexivity.
Qed.

Lemma hail_loop_missing m (hs : list H) : forall k acc out,
  forallb has3 hs = true -> (k <= m)%nat -> (m < k + List.length hs)%nat ->
  for_each (combine (seq k (List.length hs)) hs) (fun '(i, h) equations =>
    for_each (enumerate axes) (fun '(vi, p) equations =>
      hs <- getitem (H_s h) vi ;;
      hd <- getitem (H_d h) vi ;;
      ti <- dict_get (self_named (unknowns m)) (tname i) ;;
      sp <- dict_get (self_named (unknowns m)) ("s" ++ p)%string ;;
      dp <- dict_get (self_named (unknowns m)) ("d" ++ p)%string ;;
      ti' <- dict_get (self_named (unknowns m)) (tname i) ;;
      ret (equations ++
           [Sub (Sub (Add (Num hs) (Mul (Num hd) (Sym ti))) (Sym sp))
                (Mul (Sym dp) (Sym ti'))]))
      equations) acc out
  = (Raised KeyError, out).
Proof.
  induction hs as [|h hs IH]; intros k acc out Hwf Hk Hm;
    cbn [List.length] in Hm; [lia|].
  cbn [List.length seq combine for_each forallb] in *.
  apply andb_prop in Hwf as [Hh Hwf].
  unfold bind at 1.
  destruct (Nat.eq_dec k m) as [->|Hne].
  - rewrite axis_loop_missing; [reflexivity| |assumption].
    apply dict_find_self_named_none. apply tname_not_unknown. lia.
  - rewrite axis_loop.
    + rewrite Hh. apply IH; [assumption|lia|lia].
    + intros x Hx. apply dict_find_self_named. unfold unknowns.
      apply in_or_app. now left.
    + apply dict_find_self_named. unfold unknowns. apply in_or_app. right.
      apply in_map, in_seq. lia.
Qed.

(** X1.  After [add_all] on [N] hailstones, [_h] holds them in order and
    the table has [6 + N] keys without repetition; every key is bound to
    the symbol of its own name, so the unknown of hailstone [i] is found
    under [t<i>] and no two hailstones share a time unknown. *)
Theorem symbol_table_invariant (data : list H) :
  let self := Symbols_add_all Symbols_init data in
  Symbols_h self = data /\
  NoDup (dict_keys (Symbols_s self)) /\
  List.length (Symbols_s self) = (6 + List.length data)%nat /\
  (forall k, In k (dict_keys (Symbols_s self)) ->
             dict_find (Symbols_s self) k = Some (sympy_symbols k)) /\
  (forall i j, (i < List.length data)%nat -> (j < List.length data)%nat ->
               dict_find (Symbols_s self) (tname i) = dict_find (Symbols_s self) (tname j) ->
               i = j).
Proof.
  intros self. subst self. rewrite add_all_table. cbn [Symbols_s Symbols_h].
  rewrite self_named_keys.
  split; [reflexivity|]. split; [apply NoDup_unknowns|]. split; [|split].
  - unfold self_named, unknowns.
    rewrite length_map, length_app, length_map, length_seq. reflexivity.
  - intros k Hk. now apply dict_find_self_named.
  - intros i j Hi Hj.
    assert (Hin : forall k, (k < List.length data)%nat ->
                    In (tname k) (unknowns (List.length data))).
    { intros k Hk. unfold unknowns. apply in_or_app. right.
      apply in_map, in_seq. lia. }
    rewrite (dict_find_self_named _ _ (Hin i Hi)).
    rewrite (dict_find_self_named _ _ (Hin j Hj)).
    intros E. apply tname_inj. congruence.
Qed.

(** X2.  [_add_for_h(h, idx)] on any table: afterwards [t<idx>] is bound
    to the symbol [t<idx>], every other key is bound as before, [_h] is
    untouched, and the keys are those of before, with [t<idx>] added last
    when it was not among them. *)
Theorem add_for_h_lookup (self : Symbols) (h : H) (idx : nat) :
  let self' := Symbols_add_for_h self h idx in
  dict_find (Symbols_s self') (tname idx) = Some (sympy_symbols (tname idx)) /\
  (forall k, k <> tname idx ->
             dict_find (Symbols_s self') k = dict_find (Symbols_s self) k) /\
  Symbols_h self' = Symbols_h self /\
  dict_keys (Symbols_s self')
  = (if existsb (String.eqb (tname idx)) (dict_keys (Symbols_s self))
     then dict_keys (Symbols_s self)
     else dict_keys (Symbols_s self) ++ [tname idx]).
Proof.
  intros self'. subst self'. unfold Symbols_add_for_h. cbn [Symbols_s Symbols_h].
  split; [apply dict_find_set_same|]. split; [|split].
  - intros k Hk. now apply dict_find_set_other.
  - reflexivity.
  - apply dict_keys_set.
Qed.

(** X3.  After a second [add_all] the table has time unknowns for the longer of
    the two lists only, while [_h] holds both: [solve] then fails with
    [KeyError] on the first hailstone without a time unknown, before it
    prints anything. *)
Theorem solve_after_second_add_all solver (hs1 hs2 : list H) out :
  hs1 <> [] -> hs2 <> [] -> forallb has3 (hs1 ++ hs2) = true ->
  let self := Symbols_add_all (Symbols_add_all Symbols_init hs1) hs2 in
  Symbols_h self = hs1 ++ hs2 /\
  dict_keys (Symbols_s self)
  = unknowns (Nat.max (List.length hs1) (List.length hs2)) /\
  Symbols_solve solver self out = (Raised KeyError, out).
Proof.
  intros H1 H2 Hwf self. subst self. rewrite add_all_twice.
  cbn [Symbols_s Symbols_h]. rewrite self_named_keys.
  split; [reflexivity|]. split; [reflexivity|].
  unfold Symbols_solve, equation_loop, enumerate. cbn [Symbols_s Symbols_h].
  unfold bind at 1. rewrite hail_loop_missing; try assumption; try lia.
  - reflexivity.
  - rewrite length_app.
    destruct hs1; [congruence|]. destruct hs2; [congruence|]. simpl. lia.
Qed.

Lemma solve_after_second_add_all_witness :
  let self := Symbols_add_all (Symbols_add_all Symbols_init canonical) parallel in
  Symbols_h self = canonical ++ parallel /\
  dict_keys (Symbols_s self) = unknowns 5 /\
  Symbols_solve (candidate_solver []) self [] = (Raised KeyError, []).
Proof.
  apply (solve_after_second_add_all (candidate_solver []) canonical parallel []).
  - discriminate.
  - discriminate.
  - reflexivity.
Defined.

(** ** What a solution of the system is *)

Lemma unknowns_length n : List.length (unknowns n) = (6 + n)%nat.
Proof. unfold unknowns. now rewrite length_app, length_map, length_seq. Qed.

Lemma satisfies_meets (hs : list H) (t : list Q) :
  satisfies (equations_of hs) (unknowns (List.length hs)) t <->
  List.length t = (6 + List.length hs)%nat /\
  forall i h, nth_error hs i = Some h ->
              meets h (target_position t) (target_velocity t) (time_of t i).
Proof.
  unfold satisfies, equations_of. rewrite unknowns_length, Forall_equations_from.
  split; intros [Hlen Hall]; (split; [exact Hlen|]); intros i h Hi.
  - apply (hail_equations_meet (List.length hs)).
    + apply nth_error_Some. congruence.
    + apply (Hall i h Hi).
  - cbn [Nat.add]. apply (hail_equations_meet (List.length hs)).
    + apply nth_error_Some. congruence.
    + apply (Hall i h Hi).
Qed.

(** X4.  The system that the loop of [solve] builds says what its comment
    says, [s1 + v1*t1 = s + v*t1]: a tuple with one number per unknown
    solves it exactly when, for every hailstone [i], the target that
    starts at the first three entries with the next three as velocity is
    at the place of the hailstone at the time in entry [6 + i], on all
    three axes. *)
Theorem system_means_meetings (hs : list H) out eqs out' (t : list Q) :
  equation_loop (Symbols_add_all Symbols_init hs) out = (Returned eqs, out') ->
  (satisfies eqs (dict_values (Symbols_s (Symbols_add_all Symbols_init hs))) t <->
   List.length t = (6 + List.length hs)%nat /\
   forall i h, nth_error hs i = Some h ->
               meets h (target_position t) (target_velocity t) (time_of t i)).
Proof.
  rewrite equation_loop_spec. destruct (forallb has3 hs); [|discriminate].
  intros [= <- _]. rewrite add_all_table. cbn [Symbols_s].
  rewrite self_named_values. apply satisfies_meets.
Qed.

Lemma system_means_meetings_witness :
  satisfies (equations_of canonical)
    (dict_values (Symbols_s (Symbols_add_all Symbols_init canonical)))
    [24; 13; 10; -3; 1; 2; 5; 3; 4; 6; 1] <->
  List.length [24; 13; 10; -3; 1; 2; 5; 3; 4; 6; 1] = (6 + List.length canonical)%nat /\
  forall i h, nth_error canonical i = Some h ->
              meets h (target_position [24; 13; 10; -3; 1; 2; 5; 3; 4; 6; 1])
                      (target_velocity [24; 13; 10; -3; 1; 2; 5; 3; 4; 6; 1])
                      (time_of [24; 13; 10; -3; 1; 2; 5; 3; 4; 6; 1] i).
Proof.
  apply (system_means_meetings canonical [] (equations_of canonical) []).
  vm_compute. reflexivity.
Defined.

(** X5.  With a solver that reports only solutions of the system it is
    given, the tuple [solve] returns is a target that meets every
    hailstone of the input: hailstone [i] at the time in entry [6 + i]. *)
Theorem solution_meets_every_hailstone solver (hs : list H) out r out' :
  sound_on solver (equations_of hs) (unknowns (List.length hs)) ->
  solve solver hs out = (Returned r, out') ->
  List.length r = (6 + List.length hs)%nat /\
  forall i h, nth_error hs i = Some h ->
              meets h (target_position r) (target_velocity r) (time_of r i).
Proof.
  intros Hsound Hs. rewrite solve_spec in Hs.
  destruct (forallb has3 hs); [|discriminate].
  destruct (solver _ _) as [|r0 rest] eqn:Es; [discriminate|].
  injection Hs as -> _. apply satisfies_meets. apply Hsound.
  rewrite Es. now left.
Qed.

Lemma solution_meets_every_hailstone_witness :
  List.length [24; 13; 10; -3; 1; 2; 5; 3; 4; 6; 1] = (6 + List.length canonical)%nat /\
  forall i h, nth_error canonical i = Some h ->
              meets h (target_position [24; 13; 10; -3; 1; 2; 5; 3; 4; 6; 1])
                      (target_velocity [24; 13; 10; -3; 1; 2; 5; 3; 4; 6; 1])
                      (time_of [24; 13; 10; -3; 1; 2; 5; 3; 4; 6; 1] i).
Proof.
  apply (solution_meets_every_hailstone
           (candidate_solver [[24; 13; 10; -3; 1; 2; 5; 3; 4; 6; 1]]) canonical []
           [24; 13; 10; -3; 1; 2; 5; 3; 4; 6; 1]
           (snd (solve (candidate_solver [[24; 13; 10; -3; 1; 2; 5; 3; 4; 6; 1]])
                   canonical []))).
  - apply candidate_solver_sound.
  - vm_compute. reflexivity.
Defined.

(** Two hailstones met by one target: the products of unknowns cancel and
    a relation remains that is linear in the target. *)
Lemma meets_linear (hA hB : H) (S D : list Q) (tA tB : Q) (u v : nat) :
  meets hA S D tA -> meets hB S D tB -> (u < 3)%nat -> (v < 3)%nat ->
  (coord (H_d hA) v - coord (H_d hB) v) * nth u S 0
  - (coord (H_d hA) u - coord (H_d hB) u) * nth v S 0
  + (coord (H_s hA) u - coord (H_s hB) u) * nth v D 0
  - (coord (H_s hA) v - coord (H_s hB) v) * nth u D 0
  == coord (H_s hA) u * coord (H_d hA) v - coord (H_s hA) v * coord (H_d hA) u
     - coord (H_s hB) u * coord (H_d hB) v + coord (H_s hB) v * coord (H_d hB) u.
Proof.
  intros HA HB Hu Hv.
  assert (EA : forall w, (w < 3)%nat ->
            coord (H_s hA) w + coord (H_d hA) w * tA - nth w S 0 - nth w D 0 * tA == 0)
    by (intros w Hw; specialize (HA w Hw); lra).
  assert (EB : forall w, (w < 3)%nat ->
            coord (H_s hB) w + coord (H_d hB) w * tB - nth w S 0 - nth w D 0 * tB == 0)
    by (intros w Hw; specialize (HB w Hw); lra).
  pose proof (cross _ _ _ _ _ _ _ _ _ (EA u Hu) (EA v Hv)) as CA.
  pose proof (cross _ _ _ _ _ _ _ _ _ (EB u Hu) (EB v Hv)) as CB.
  lra.
Qed.

(** X6.  Any two hailstones [i] and [j] and any two axes [u] and [v]
    give a relation that is linear in the six target entries of a tuple
    [solve] returns from a solver that reports only solutions: the times
    and all products of unknowns have cancelled. *)
Theorem solution_linear_relation solver (hs : list H) out r out' i j hA hB u v :
  sound_on solver (equations_of hs) (unknowns (List.length hs)) ->
  solve solver hs out = (Returned r, out') ->
  nth_error hs i = Some hA -> nth_error hs j = Some hB ->
  (u < 3)%nat -> (v < 3)%nat ->
  (coord (H_d hA) v - coord (H_d hB) v) * nth u (target_position r) 0
  - (coord (H_d hA) u - coord (H_d hB) u) * nth v (target_position r) 0
  + (coord (H_s hA) u - coord (H_s hB) u) * nth v (target_velocity r) 0
  - (coord (H_s hA) v - coord (H_s hB) v) * nth u (target_velocity r) 0
  == coord (H_s hA) u * coord (H_d hA) v - coord (H_s hA) v * coord (H_d hA) u
     - coord (H_s hB) u * coord (H_d hB) v + coord (H_s hB) v * coord (H_d hB) u.
Proof.
  intros Hsound Hs Hi Hj Hu Hv. rewrite solve_spec in Hs.
  destruct (forallb has3 hs); [|discriminate].
  destruct (solver _ _) as [|r0 rest] eqn:Es; [discriminate|].
  injection Hs as -> _.
  assert (Hsat : satisfies (equations_of hs) (unknowns (List.length hs)) r)
    by (apply Hsound; rewrite Es; now left).
  apply satisfies_meets in Hsat as [_ Hm].
  apply (meets_linear hA hB _ _ (time_of r i) (time_of r j));
    [now apply Hm|now apply Hm|assumption|assumption].
Qed.

Lemma solution_linear_relation_witness :
  let hA := hail 19 13 30 (-2) 1 (-2) in
  let hB := hail 18 19 22 (-1) (-1) (-2) in
  let r := [24; 13; 10; -3; 1; 2; 5; 3; 4; 6; 1] in
  (coord (H_d hA) 1 - coord (H_d hB) 1) * nth 0 (target_position r) 0
  - (coord (H_d hA) 0 - coord (H_d hB) 0) * nth 1 (target_position r) 0
  + (coord (H_s hA) 0 - coord (H_s hB) 0) * nth 1 (target_velocity r) 0
  - (coord (H_s hA) 1 - coord (H_s hB) 1) * nth 0 (target_velocity r) 0
  == coord (H_s hA) 0 * coord (H_d hA) 1 - coord (H_s hA) 1 * coord (H_d hA) 0
     - coord (H_s hB) 0 * coord (H_d hB) 1 + coord (H_s hB) 1 * coord (H_d hB) 0.
Proof.
  intros hA hB r.
  apply (solution_linear_relation
           (candidate_solver [[24; 13; 10; -3; 1; 2; 5; 3; 4; 6; 1]]) canonical []
           r
           (snd (solve (candidate_solver [[24; 13; 10; -3; 1; 2; 5; 3; 4; 6; 1]])
                   canonical []))
           0%nat 1%nat hA hB 0%nat 1%nat).
  - apply candidate_solver_sound.
  - vm_compute. reflexivity.
  - reflexivity.
  - reflexivity.
  - lia.
  - lia.
Defined.

(** X7.  The times are fixed by the target: in a tuple [solve] returns
    from a solver that reports only solutions, the time of hailstone [i]
    is the quotient of the position difference by the velocity difference
    on any axis where the target and the hailstone differ in velocity. *)
Theorem time_determined_by_target solver (hs : list H) out r out' i h vi :
  sound_on solver (equations_of hs) (unknowns (List.length hs)) ->
  solve solver hs out = (Returned r, out') ->
  nth_error hs i = Some h -> (vi < 3)%nat ->
  ~ nth vi (target_velocity r) 0 - coord (H_d h) vi == 0 ->
  time_of r i
  == (coord (H_s h) vi - nth vi (target_position r) 0)
     / (nth vi (target_velocity r) 0 - coord (H_d h) vi).
Proof.
  intros Hsound Hs Hi Hvi Hne. rewrite solve_spec in Hs.
  destruct (forallb has3 hs); [|discriminate].
  destruct (solver _ _) as [|r0 rest] eqn:Es; [discriminate|].
  injection Hs as -> _.
  assert (Hsat : satisfies (equations_of hs) (unknowns (List.length hs)) r)
    by (apply Hsound; rewrite Es; now left).
  apply satisfies_meets in Hsat as [_ Hm].
  specialize (Hm i h Hi vi Hvi).
  assert (E : time_of r i * (nth vi (target_velocity r) 0 - coord (H_d h) vi)
              == coord (H_s h) vi - nth vi (target_position r) 0) by lra.
  rewrite <- E. field. exact Hne.
Qed.

Lemma time_determined_by_target_witness :
  let h := hail 19 13 30 (-2) 1 (-2) in
  let r := [24; 13; 10; -3; 1; 2; 5; 3; 4; 6; 1] in
  time_of r 0
  == (coord (H_s h) 0 - nth 0 (target_position r) 0)
     / (nth 0 (target_velocity r) 0 - coord (H_d h) 0).
Proof.
  intros h r.
  apply (time_determined_by_target
           (candidate_solver [[24; 13; 10; -3; 1; 2; 5; 3; 4; 6; 1]]) canonical []
           r
           (snd (solve (candidate_solver [[24; 13; 10; -3; 1; 2; 5; 3; 4; 6; 1]])
                   canonical []))
           0%nat h 0%nat).
  - apply candidate_solver_sound.
  - vm_compute. reflexivity.
  - reflexivity.
  - lia.
  - vm_compute. discriminate.
Defined.

(** ** Reading the input *)






























Lemma silent_ret {A} (a : A) : silent (ret a).
Proof. intros out. reflexivity. Qed.

Lemma silent_raise {A} cls : silent (@raise A cls).
Proof. intros out. reflexivity. Qed.

Lemma silent_lift {A} (o : outcome A) : silent (lift o).
Proof. intros out. reflexivity. Qed.

Lemma silent_bind {A B} (m : Py A) (k : A -> Py B) :
  silent m -> (forall a, silent (k a)) -> silent (bind m k).
Proof.
  intros Hm Hk out. unfold bind. rewrite (Hm out), (Hm []).
  destruct (fst (m [])) as [a|cls]; cbn [fst]; [|reflexivity].
  rewrite (Hk a out). reflexivity.
Qed.

Lemma silent_for_each {A S} (l : list A) (body : A -> S -> Py S) :
  (forall x st, silent (body x st)) -> forall st, silent (for_each l body st).
Proof.
  intros Hb. induction l as [|x l IH]; intros st; cbn [for_each].
  - apply silent_ret.
  - apply silent_bind; [apply Hb|apply IH].
Qed.

Lemma silent_parse_line l : silent (parse_line l).
Proof.
  unfold parse_line.
  destruct (split l " @ ") as [|s [|d [|]]]; try apply silent_raise.
  apply silent_bind.
  - apply silent_for_each. intros tok acc.
    apply silent_bind; [apply silent_lift|intros; apply silent_ret].
  - intros ls. apply silent_bind.
    + apply silent_for_each. intros tok acc.
      apply silent_bind; [apply silent_lift|intros; apply silent_ret].
    + intros ld. apply silent_ret.
Qed.

Lemma silent_read_data lines : silent (read_data lines).
Proof.
  unfold read_data. apply silent_for_each. intros l data.
  apply silent_bind; [apply silent_parse_line|intros; apply silent_ret].
Qed.

Lemma parse_line_parsed l out : parse_line l out = (parsed l, out).
Proof. apply silent_parse_line. Qed.

Lemma float_loop_error (toks : list string) : forall acc out cls out',
  for_each toks (fun tok acc => bind (lift (py_float tok)) (fun x => ret (acc ++ [x])))
    acc out = (Raised cls, out') ->
  cls = ValueError.
Proof.
  induction toks as [|tok toks IH]; intros acc out cls out'; simpl.
  - discriminate.
  - unfold bind at 1. unfold bind at 1. unfold lift at 1.
    unfold py_float.
    destruct (match strip tok with
              | String "-" r => (true, r)
              | String "+" r => (false, r)
              | _ => (false, strip tok)
              end) as [neg ds].
    destruct (digits ds) as [n|].
    + unfold ret at 1. apply IH.
    + now intros [= <- _].
Qed.

Lemma parsed_error l cls : parsed l = Raised cls -> cls = ValueError.
Proof.
  unfold parsed, parse_line.
  destruct (split l " @ ") as [|s [|d [|]]];
    try (cbn; now intros [= <-]).
  unfold bind at 1.
  destruct (for_each (split s ", ") _ [] []) as [[ls|c] o] eqn:Es.
  - unfold bind at 1.
    destruct (for_each (split d ", ") _ [] o) as [[ld|c] o'] eqn:Ed.
    + discriminate.
    + cbn. intros [= <-]. eapply float_loop_error; eassumption.
  - cbn. intros [= <-]. eapply float_loop_error; eassumption.
Qed.

Lemma read_loop_returns (lines : list string) : forall acc out data out',
  for_each lines (fun l data => bind (parse_line l) (fun h => ret (data ++ [h]))) acc out
  = (Returned data, out') <->
  out' = out /\
  exists hs, data = acc ++ hs /\ Forall2 (fun l h => parsed l = Returned h) lines hs.
Proof.
  induction lines as [|l lines IH]; intros acc out data out'; cbn [for_each].
  - unfold ret. split.
    + intros [= <- <-]. split; [reflexivity|]. exists [].
      split; [now rewrite List.app_nil_r|constructor].
    + intros (-> & hs & -> & Hf). inversion Hf. now rewrite List.app_nil_r.
  - unfold bind at 1. unfold bind at 1. rewrite parse_line_parsed.
    destruct (parsed l) as [h|cls] eqn:El.
    + unfold ret at 1. rewrite IH. split.
      * intros (-> & hs & -> & Hf). split; [reflexivity|]. exists (h :: hs).
        split; [now rewrite <- List.app_assoc|now constructor].
      * intros (-> & hs & -> & Hf). split; [reflexivity|].
        inversion Hf as [|? h' ? hs' Hh Hf']; subst.
        assert (h' = h) as -> by congruence.
        exists hs'. split; [now rewrite <- List.app_assoc|assumption].
    + split; [discriminate|].
      intros (_ & hs & _ & Hf). inversion Hf; congruence.
Qed.

Lemma read_loop_raises (lines : list string) : forall acc out cls out',
  for_each lines (fun l data => bind (parse_line l) (fun h => ret (data ++ [h]))) acc out
  = (Raised cls, out') ->
  cls = ValueError /\ out' = out /\
  exists before l after hs,
    lines = before ++ l :: after /\
    Forall2 (fun l h => parsed l = Returned h) before hs /\
    parsed l = Raised ValueError.
Proof.
  induction lines as [|l lines IH]; intros acc out cls out'; cbn [for_each].
  - discriminate.
  - unfold bind at 1. unfold bind at 1. rewrite parse_line_parsed.
    destruct (parsed l) as [h|c] eqn:El.
    + unfold ret at 1. intros Hr.
      apply IH in Hr as (-> & -> & before & l' & after & hs & -> & Hf & Hl').
      repeat split. exists (l :: before), l', after, (h :: hs).
      repeat split; [now constructor|assumption].
    + intros [= <- <-]. pose proof (parsed_error l c El) as ->.
      repeat split. exists [], l, lines, []. repeat split; [constructor|assumption].
Qed.



(** X9.  [parse_line] prints nothing, whatever the line, and the only
    exception it raises is [ValueError]. *)
Theorem parse_line_silent (l : string) out :
  parse_line l out = (fst (parse_line l []), out) /\
  forall cls, fst (parse_line l out) = Raised cls -> cls = ValueError.
Proof.
  split; [apply silent_parse_line|].
  intros cls. rewrite (silent_parse_line l out). cbn [fst].
  apply parsed_error.
Qed.

(** X10.  [read_data] returns a list exactly when every line parses, and
    then the list has the hailstone of each line, one per line and in the
    order of the file; nothing is printed. *)
Theorem read_data_one_per_line (lines : list string) (data : list H) out out' :
  read_data lines out = (Returned data, out') <->
  out' = out /\
  Forall2 (fun l h => fst (parse_line l []) = Returned h) lines data.
Proof.
  unfold read_data. rewrite read_loop_returns. cbn [app]. split.
  - intros (-> & hs & -> & Hf). now split.
  - intros (-> & Hf). split; [reflexivity|]. now exists data.
Qed.

(** X11.  When [read_data] fails it fails with [ValueError], at the first
    line that does not parse: the lines before it parse, no hailstone is
    returned and nothing is printed. *)
Theorem read_data_failure (lines : list string) cls out out' :
  read_data lines out = (Raised cls, out') ->
  cls = ValueError /\ out' = out /\
  exists before l after hs,
    lines = before ++ l :: after /\
    Forall2 (fun l h => fst (parse_line l []) = Returned h) before hs /\
    fst (parse_line l []) = Raised ValueError.
Proof.
  unfold read_data. intros Hr.
  apply read_loop_raises in Hr as (-> & -> & before & l & after & hs & -> & Hf & Hl).
  repeat split. now exists before, l, after, hs.
Qed.

Lemma read_data_failure_witness :
  ValueError = ValueError /\ (@nil (list pyobj)) = [] /\
  exists before l after hs,
    [("19, 13, 30 @ -2, 1, -2" ++ nl)%string; "19, 13, 30"%string]
    = before ++ l :: after /\
    Forall2 (fun l h => fst (parse_line l []) = Returned h) before hs /\
    fst (parse_line l []) = Raised ValueError.
Proof.
  apply (read_data_failure
           [("19, 13, 30 @ -2, 1, -2" ++ nl)%string; "19, 13, 30"%string]
           ValueError [] []).
  vm_compute. reflexivity.
Defined.

(** ** The output of the script *)



(** X13.  The script after reading fails with [IndexError] only, in one
    of three places: a hailstone with fewer than three coordinates in a
    list, after the hailstones and the table were printed; no solution
    from the solver, after the equations were printed too; a first
    solution with fewer than three entries, after its first six entries
    were printed.  The sum is never printed before a failure. *)
Theorem report_failure solver (data : list H) out cls out' :
  report solver data out = (Raised cls, out') ->
  cls = IndexError /\
  ((forallb has3 data = false /\ out' = before_solve data out)
   \/ (forallb has3 data = true /\
       solver (equations_of data) (unknowns (List.length data)) = [] /\
       out' = before_solve data out ++ map (fun e => [OExpr e]) (equations_of data))
   \/ (forallb has3 data = true /\
       exists r rest,
         solver (equations_of data) (unknowns (List.length data)) = r :: rest /\
         (List.length r < 3)%nat /\
         out' = (before_solve data out ++ map (fun e => [OExpr e]) (equations_of data))
                ++ [[OStr "Place: "; OTuple (firstn 6 r)]])).
Proof.
  rewrite report_spec, solve_spec.
  destruct (forallb has3 data).
  - destruct (solver _ _) as [|r rest] eqn:Es.
    + intros [= <- <-]. split; [reflexivity|]. right. left. auto.
    + destruct r as [|r0 [|r1 [|r2 r]]]; intros [= <- <-];
        (split; [reflexivity|]); right; right; (split; [reflexivity|]);
        eexists; exists rest; (split; [reflexivity|]); split;
        try reflexivity; simpl; lia.
  - intros [= <- <-]. split; [reflexivity|]. left. auto.
Qed.

Lemma report_failure_witness :
  IndexError = IndexError /\
  ((forallb has3 canonical = false
    /\ before_solve canonical [] ++ map (fun e => [OExpr e]) (equations_of canonical)
       = before_solve canonical [])
   \/ (forallb has3 canonical = true /\
       candidate_solver [] (equations_of canonical) (unknowns (List.length canonical)) = [] /\
       before_solve canonical [] ++ map (fun e => [OExpr e]) (equations_of canonical)
       = before_solve canonical [] ++ map (fun e => [OExpr e]) (equations_of canonical))
   \/ (forallb has3 canonical = true /\
       exists r rest,
         candidate_solver [] (equations_of canonical) (unknowns (List.length canonical))
         = r :: rest /\
         (List.length r < 3)%nat /\
         before_solve canonical [] ++ map (fun e => [OExpr e]) (equations_of canonical)
         = (before_solve canonical [] ++ map (fun e => [OExpr e]) (equations_of canonical))
           ++ [[OStr "Place: "; OTuple (firstn 6 r)]])).
Proof.
  apply (report_failure (candidate_solver []) canonical [] IndexError
           (before_solve canonical [] ++ map (fun e => [OExpr e]) (equations_of canonical))).
  vm_compute. reflexivity.
Defined.

(** X14.  The script reads the whole file before it prints: when a line
    does not parse, also one after good lines, it fails with [ValueError]
    and has printed nothing, not even the hailstones read so far; when
    all lines parse it goes on as [report] on their hailstones. *)
Theorem main_reads_then_reports solver (lines : list string) out :
  (forall data, fst (read_data lines []) = Returned data ->
                main solver lines out = report solver data out) /\
  (forall cls, fst (read_data lines []) = Raised cls ->
               main solver lines out = (Raised ValueError, out)).
Proof.
  unfold main, bind. rewrite (silent_read_data lines out). split.
  - intros data ->. reflexivity.
  - intros cls Hr. rewrite Hr.
    assert (Hraise : read_data lines [] = (Raised cls, []))
      by (rewrite (silent_read_data lines []); now rewrite Hr).
    apply read_loop_raises in Hraise as (-> & _). reflexivity.
Qed.

Lemma main_reads_then_reports_witness :
  main (candidate_solver [[24; 13; 10; -3; 1; 2; 5; 3; 4; 6; 1]])
    [("19, 13, 30 @ -2, 1, -2" ++ nl)%string; "19, 13, 30"%string] []
  = (Raised ValueError, []).
Proof.
  apply (proj2 (main_reads_then_reports
                  (candidate_solver [[24; 13; 10; -3; 1; 2; 5; 3; 4; 6; 1]])
                  [("19, 13, 30 @ -2, 1, -2" ++ nl)%string; "19, 13, 30"%string] [])
               ValueError).
  vm_compute. reflexivity.
Defined.
